(** * rift: parameterised SQL helpers over a pg connection pool

    A shallow embedding of [lib/index.ts] and [lib/types.ts].  The
    JavaScript built-ins the helpers rely on ([Object.keys],
    [Array.prototype.join], template literals, [JSON.stringify]) live in
    [Module Js]; the helpers themselves ([init_pool], [query], [insert],
    [update], [remove]) live in [Module Rift], written in a small
    state-and-exception monad over an explicit [World]: the module-level
    [pool] variable, the store of arrays handed to the driver, and the
    trace of every call made on the driver. *)

From Stdlib Require Import String Ascii List ZArith Lia Bool Arith.
From Stdlib Require Import Numbers.DecimalString.
Import ListNotations.
Open Scope string_scope.
Set Warnings "-register-all".

(* ===================================================================== *)
(** ** JavaScript values and built-ins *)
(* ===================================================================== *)

Module Js.

(** The values that travel through the helpers.  [Num z] is the Number
    [z], an integer; it is one JavaScript holds exactly and prints digit
    by digit when [z] is a safe integer ([safe] below).  [BigInt z] is
    the BigInt [z].  [Inherited name] is what a plain object that has no
    property [name] of its own answers for a name of [Object.prototype]:
    a built-in function, and for [__proto__] the prototype itself. *)
Inductive value : Type :=
| Undefined
| Null
| Bool (b : bool)
| Num (z : Z)
| BigInt (z : Z)
| Str (s : string)
| Inherited (name : string)
| Arr (items : list value)
| Obj (props : list (string * value)).

(** A plain object (its prototype is [Object.prototype]): its own
    enumerable properties, in the order in which [Object.keys] reports
    them. *)
Definition object : Type := list (string * value).

(** The names of the properties of [Object.prototype]. *)
Definition object_prototype : list string :=
  ["constructor"; "__defineGetter__"; "__defineSetter__"; "hasOwnProperty";
   "__lookupGetter__"; "__lookupSetter__"; "isPrototypeOf";
   "propertyIsEnumerable"; "toString"; "valueOf"; "__proto__";
   "toLocaleString"].

Definition inherited (key : string) : bool :=
  existsb (String.eqb key) object_prototype.

(** [Number.isSafeInteger(z)] *)
Definition safe_integer (z : Z) : bool :=
  (Z.abs z <=? 2 ^ 53 - 1)%Z.

(** Every Number inside [v] is a safe integer. *)
Fixpoint safe (v : value) : bool :=
  match v with
  | Num z => safe_integer z
  | Arr items => forallb safe items
  | Obj props => forallb (fun p => let '(_, x) := p in safe x) props
  | _ => true
  end.

(** [Object.keys(o)] *)
Definition keys (o : object) : list string := map fst o.

(** [Object.values(o)] *)
Definition values (o : object) : list value := map snd o.

(** The own property [key] of [o], when there is one. *)
Fixpoint own (o : object) (key : string) : option value :=
  match o with
  | [] => None
  | (k, v) :: rest => if String.eqb k key then Some v else own rest key
  end.

(** [o[key]]: the own property's value; without one, what the prototype
    chain answers: the inherited value for a name of [Object.prototype],
    [undefined] for any other. *)
Definition get (o : object) (key : string) : value :=
  match own o key with
  | Some v => v
  | None => if inherited key then Inherited key else Undefined
  end.

(** [l.join(sep)] on an array of strings. *)
Fixpoint join (sep : string) (l : list string) : string :=
  match l with
  | [] => ""
  | x :: rest =>
      match rest with
      | [] => x
      | _ :: _ => x ++ sep ++ join sep rest
      end
  end.

(** [l.map((x, i) => f x i)], the index counted from [i]. *)
Fixpoint map_from {A B : Type} (f : A -> nat -> B) (i : nat) (l : list A)
  : list B :=
  match l with
  | [] => []
  | x :: rest => f x i :: map_from f (S i) rest
  end.

Definition mapi {A B : Type} (f : A -> nat -> B) (l : list A) : list B :=
  map_from f 0 l.

(** [`${n}`] for a non-negative integer [n]. *)
Definition string_of_nat (n : nat) : string :=
  NilEmpty.string_of_uint (Nat.to_uint n).

(** [`${z}`] for an integer [z]. *)
Definition string_of_Z (z : Z) : string :=
  NilZero.string_of_int (Z.to_int z).

Definition LF : string := String (ascii_of_nat 10) EmptyString.
Definition dquote : string := String (ascii_of_nat 34) EmptyString.

Definition hex_digit (n : nat) : ascii :=
  nth n ["0"; "1"; "2"; "3"; "4"; "5"; "6"; "7"; "8"; "9";
         "a"; "b"; "c"; "d"; "e"; "f"]%char "0"%char.

(** JSON's escape of one character of a string. *)
Definition escape_char (c : ascii) : string :=
  let n := nat_of_ascii c in
  if Nat.eqb n 34 then "\" ++ dquote
  else if Nat.eqb n 92 then "\\"
  else if Nat.eqb n 8 then "\b"
  else if Nat.eqb n 9 then "\t"
  else if Nat.eqb n 10 then "\n"
  else if Nat.eqb n 12 then "\f"
  else if Nat.eqb n 13 then "\r"
  else if Nat.ltb n 32 then
    "\u00" ++ String (hex_digit (n / 16)) (String (hex_digit (n mod 16)) "")
  else String c "".

Fixpoint escape (s : string) : string :=
  match s with
  | EmptyString => ""
  | String c rest => escape_char c ++ escape rest
  end.

Definition quote (s : string) : string := dquote ++ escape s ++ dquote.

(** How a built-in ends: with a result, or by throwing a [TypeError]. *)
Inductive completion (A : Type) : Type :=
| Normal (a : A)
| ThrowsTypeError.

Arguments Normal {A} a.
Arguments ThrowsTypeError {A}.

(** [JSON.stringify(v)]; the result [None] is [undefined].  Inside an
    array [undefined] and functions are written [null]; inside an object
    such a property is left out.  A BigInt, wherever it stands, makes the
    whole call throw a [TypeError]. *)
Fixpoint JSON_stringify (v : value) : completion (option string) :=
  match v with
  | Undefined => Normal None
  | Null => Normal (Some "null")
  | Bool true => Normal (Some "true")
  | Bool false => Normal (Some "false")
  | Num z => Normal (Some (string_of_Z z))
  | BigInt _ => ThrowsTypeError
  | Str s => Normal (Some (quote s))
  | Inherited name =>
      Normal (if String.eqb name "__proto__" then Some "{}" else None)
  | Arr items =>
      match (fix elements (l : list value) : completion (list string) :=
               match l with
               | [] => Normal []
               | x :: rest =>
                   match JSON_stringify x with
                   | ThrowsTypeError => ThrowsTypeError
                   | Normal s =>
                       match elements rest with
                       | ThrowsTypeError => ThrowsTypeError
                       | Normal ss =>
                           Normal (match s with
                                   | Some s => s
                                   | None => "null"
                                   end :: ss)
                       end
                   end
               end) items
      with
      | ThrowsTypeError => ThrowsTypeError
      | Normal ss => Normal (Some ("[" ++ join "," ss ++ "]"))
      end
  | Obj props =>
      match (fix members (ps : list (string * value))
               : completion (list string) :=
               match ps with
               | [] => Normal []
               | (k, x) :: rest =>
                   match JSON_stringify x with
                   | ThrowsTypeError => ThrowsTypeError
                   | Normal s =>
                       match members rest with
                       | ThrowsTypeError => ThrowsTypeError
                       | Normal ss =>
                           Normal (match s with
                                   | Some s => (quote k ++ ":" ++ s) :: ss
                                   | None => ss
                                   end)
                       end
                   end
               end) props
      with
      | ThrowsTypeError => ThrowsTypeError
      | Normal ss => Normal (Some ("{" ++ join "," ss ++ "}"))
      end
  end.

(** [`${x}`] where [x] is the result of [JSON.stringify]. *)
Definition template_of (x : option string) : string :=
  match x with
  | Some s => s
  | None => "undefined"
  end.

(** [a ?? b] on an optional string. *)
Definition nullish (a : option string) (b : string) : string :=
  match a with
  | Some s => s
  | None => b
  end.

End Js.

(* ===================================================================== *)
(** ** The library: [lib/types.ts] and [lib/index.ts] *)
(* ===================================================================== *)

Module Rift.

Import Js.

(** *** [lib/types.ts] *)

(** [password?: string | (() => string | Promise<string>)] *)
Inductive Password : Type :=
| PasswordString (s : string)
| PasswordProvider (f : unit -> string).

Record RiftConfigAuth : Type := {
  host : option string;
  port : option Z;
  database : option string;
  user : option string;
  password : option Password
}.

Record RiftConfig : Type := {
  name : string;
  auth : option RiftConfigAuth;
  max : option Z;
  initial_script : option string
}.

(** *** What the [pg] driver shows to the library *)

(** A [pg.PoolClient] handle. *)
Definition Conn : Type := nat.

(** The options object given to [new pg.Pool]. *)
Record PoolOptions : Type := {
  opt_host : option string;
  opt_port : option Z;
  opt_database : option string;
  opt_user : option string;
  opt_password : option Password;
  opt_max : option Z
}.

(** A [pg.Pool] object: the options it was built from and the listeners
    registered with [pool.on], each kept as the event's name and the text
    its handler logs before the connection count. *)
Record Pool : Type := {
  pool_options : PoolOptions;
  pool_listeners : list (string * string)
}.

(** A [pg.DatabaseError]: an [Error] with the server's fields. *)
Record DatabaseError : Type := {
  message : string;
  code : option string;
  detail : option string;
  hint : option string;
  position : option string
}.

(** What a driver call can throw. *)
Inductive Thrown : Type :=
| ThrownDatabaseError (e : DatabaseError)   (* e instanceof pg.DatabaseError *)
| ThrownError (msg : string)                (* any other Error object *)
| ThrownValue (v : Js.value).               (* not an Error object *)

(** What leaves a helper by [throw]: the library's [RiftError], an error
    of the driver that no handler wrapped, or the [TypeError] of a
    built-in. *)
Inductive Exn : Type :=
| RiftError (msg : string)
| Uncaught (e : Thrown)
| TypeError.

Inductive QueryOutcome : Type :=
| QueryRows (rows : list Js.object)    (* res.rows *)
| QueryThrows (e : Thrown).

Inductive ConnectOutcome : Type :=
| Connected (conn : Conn)
| ConnectThrows (e : Thrown).

(** Everything the library does to the outside, in order. *)
Inductive Event : Type :=
| NewPool (opts : PoolOptions)
| ConsoleTime (label : string)
| ConsoleTimeEnd (label : string)
| PoolConnect
| ConnQuery (conn : Conn) (text : string) (values : list Js.value)
| ConnRelease (conn : Conn) (destroy : bool).

(** The driver and the database behind it: what a call answers, given
    all that was done before it.  [conn.query] is given the contents of
    the parameter array: the driver reads the array and leaves it as it
    is. *)
Record Driver : Type := {
  conn_query : list Event -> Conn -> string -> list Js.value -> QueryOutcome;
  pool_connect : list Event -> Pool -> ConnectOutcome
}.

(** A reference to an array in the store. *)
Definition Ref : Type := nat.

(** The state the helpers run in: the module variable [pool], the arrays
    passed by reference to [query], and the trace. *)
Record World : Type := {
  pool : option Pool;
  arrays : list (list Js.value);
  trace : list Event
}.

Definition set_pool (p : option Pool) (w : World) : World :=
  {| pool := p; arrays := arrays w; trace := trace w |}.

Definition set_arrays (a : list (list Js.value)) (w : World) : World :=
  {| pool := pool w; arrays := a; trace := trace w |}.

Definition log (e : Event) (w : World) : World :=
  {| pool := pool w; arrays := arrays w; trace := trace w ++ [e] |}.

(** *** The monad: state, and exceptions that keep the state *)

Inductive Result (A : Type) : Type :=
| Ok (a : A)
| Throw (e : Exn).

Arguments Ok {A} a.
Arguments Throw {A} e.

Definition M (A : Type) : Type := World -> Result A * World.

Definition ret {A : Type} (a : A) : M A := fun w => (Ok a, w).

Definition throw {A : Type} (e : Exn) : M A := fun w => (Throw e, w).

Definition bind {A B : Type} (m : M A) (k : A -> M B) : M B :=
  fun w =>
    match m w with
    | (Ok a, w') => k a w'
    | (Throw e, w') => (Throw e, w')
    end.

Notation "x <- m ;; k" := (bind m (fun x => k))
  (at level 61, m at next level, right associativity).
Notation "m ;;; k" := (bind m (fun _ => k))
  (at level 61, right associativity).

(** [new Array(...)]: a fresh array in the store. *)
Definition alloc (contents : list Js.value) : M Ref :=
  fun w => (Ok (List.length (arrays w)),
            set_arrays (arrays w ++ [contents]) w).

(** The contents of the array behind a reference. *)
Definition deref (r : Ref) : M (list Js.value) :=
  fun w => (Ok (nth r (arrays w) []), w).

Definition emit (e : Event) : M unit := fun w => (Ok tt, log e w).

Section WithDriver.

Variable drv : Driver.

(** [await conn.query(text, values)], the outcome handed back as a value
    so that the caller's [try]/[catch] can look at it. *)
Definition call_conn_query (conn : Conn) (text : string)
    (values : list Js.value) : M QueryOutcome :=
  fun w =>
    (Ok (conn_query drv (trace w) conn text values),
     log (ConnQuery conn text values) w).

(** [await pool.connect()] *)
Definition call_pool_connect (p : Pool) : M Conn :=
  fun w =>
    let w' := log PoolConnect w in
    match pool_connect drv (trace w) p with
    | Connected conn => (Ok conn, w')
    | ConnectThrows e => (Throw (Uncaught e), w')
    end.

(** [using conn = ...; body]: [conn[Symbol.dispose]()], which is
    [release(true)] on a pool client, runs when the block is left, by
    return or by throw. *)
Definition using_conn {A : Type} (conn : Conn) (body : M A) : M A :=
  fun w =>
    match body w with
    | (r, w') => (r, log (ConnRelease conn true) w')
    end.

(** *** [query] (index.ts, lines 52-78) *)

Definition query (conn : Conn) (query_text : string) (values : option Ref)
  : M (list Js.object) :=
  values <- match values with
            | Some r => ret r
            | None => alloc []          (* values: Array<V> = [] *)
            end ;;
  params <- deref values ;;
  res <- call_conn_query conn query_text params ;;
  match res with
  | QueryRows rows => ret rows
  | QueryThrows (ThrownDatabaseError e) =>
      (* the message is built inside the [catch], where nothing guards
         [JSON.stringify(values)] *)
      match JSON_stringify (Arr params) with
      | ThrowsTypeError => throw TypeError
      | Normal json =>
          throw (RiftError
            (join LF
               [ "Database Error: " ++ message e;
                 "";
                 "Code: " ++ nullish (code e) "N/A";
                 "Detail: " ++ nullish (detail e) "N/A";
                 "Hint: " ++ nullish (hint e) "N/A";
                 "Position: " ++ nullish (position e) "N/A";
                 "Query: " ++ query_text;
                 "Values: " ++ template_of json ]))
      end
  | QueryThrows (ThrownError msg) =>
      throw (RiftError ("Query failed: " ++ msg))
  | QueryThrows (ThrownValue _) =>
      throw (RiftError ("Query failed: " ++ "unknown error"))
  end.

(** *** [init_pool] (index.ts, lines 17-37) *)

(** [!s] for an optional string: absent or empty. *)
Definition falsy (s : option string) : bool :=
  match s with
  | None => true
  | Some s => String.eqb s ""
  end.

Definition auth_field {A : Type} (f : RiftConfigAuth -> option A)
    (a : option RiftConfigAuth) : option A :=
  match a with
  | Some a => f a       (* auth?.field *)
  | None => None
  end.

Definition new_pool (opts : PoolOptions) : M unit :=
  fun w =>
    (Ok tt,
     log (NewPool opts)
       (set_pool (Some {| pool_options := opts; pool_listeners := [] |}) w)).

(** [pool.on(event, () => console.log(text + pool.totalCount))] *)
Definition pool_on (event text : string) : M unit :=
  fun w =>
    match pool w with
    | Some p =>
        (Ok tt,
         set_pool (Some {| pool_options := pool_options p;
                           pool_listeners :=
                             pool_listeners p ++ [(event, text)] |}) w)
    | None => (Throw (Uncaught (ThrownError "pool is undefined")), w)
    end.

Definition get_pool : M (option Pool) := fun w => (Ok (pool w), w).

Definition init_pool (conf : RiftConfig) : M unit :=
  p <- get_pool ;;
  match p with
  | Some _ => ret tt                                  (* if (pool) return; *)
  | None =>
      new_pool {| opt_host := auth_field host (auth conf);
                  opt_port := auth_field port (auth conf);
                  opt_database := auth_field database (auth conf);
                  opt_user := auth_field user (auth conf);
                  opt_password := auth_field password (auth conf);
                  opt_max := max conf |} ;;;
      pool_on "connect" ("[" ++ name conf ++ " DB] new connection: ") ;;;
      pool_on "remove" ("[" ++ name conf ++ " DB] removed connection: ") ;;;
      if falsy (initial_script conf) then ret tt
      else
        emit (ConsoleTime ("[" ++ name conf ++ " DB] Init")) ;;;
        p <- get_pool ;;
        match p with
        | None => throw (Uncaught (ThrownError "pool is undefined"))
        | Some p =>
            conn <- call_pool_connect p ;;
            using_conn conn
              (query conn (nullish (initial_script conf) "") None ;;;
               emit (ConsoleTimeEnd ("[" ++ name conf ++ " DB] Init")))
        end
  end.

(** *** [insert] (index.ts, lines 94-126) *)

(** The body of the [for] loop over [data], from [rowIndex] on: [values]
    and [valuePlaceholders] are the two arrays it pushes to. *)
Fixpoint insert_rows (keys : list string) (data : list Js.object)
    (rowIndex : nat) (values : list Js.value)
    (valuePlaceholders : list string) : list Js.value * list string :=
  match data with
  | [] => (values, valuePlaceholders)
  | row :: rest =>
      let rowValues := map (fun key => get row key) keys in
      let values := (values ++ rowValues)%list in
      let placeholders :=
        join ", "
          (mapi (fun _ i =>
                   "$" ++ string_of_nat (rowIndex * List.length keys + i + 1))
                rowValues) in
      insert_rows keys rest (S rowIndex) values
        (valuePlaceholders ++ [("(" ++ placeholders ++ ")")%string])%list
  end.

(** [conflict?.length], as a condition. *)
Definition has_length (conflict : option (list string)) : bool :=
  match conflict with
  | Some (_ :: _) => true
  | _ => false
  end.

Definition updateClause (keys : list string)
    (conflict : option (list string)) : string :=
  if has_length conflict then
    "ON CONFLICT (" ++
    join ", " (match conflict with Some c => c | None => [] end) ++
    ") DO UPDATE SET " ++
    join ", " (map (fun k => k ++ " = EXCLUDED." ++ k) keys)
  else "".

Definition queryText (table : string) (keys : list string)
    (valuePlaceholders : list string) (updateClause : string) : string :=
  LF ++ "    INSERT INTO " ++ table ++ " (" ++ join ", " keys ++ ")" ++
  LF ++ "    VALUES " ++ join ", " valuePlaceholders ++
  LF ++ "    " ++ updateClause ++
  LF ++ "    RETURNING *;" ++
  LF ++ "  ".

(** The array [values] is known to [insert] alone while the loop fills it;
    it enters the store, complete, when it is handed to [query]. *)
Definition insert (conn : Conn) (table : string) (data : list Js.object)
    (conflict : option (list string)) : M (list Js.object) :=
  match data with
  | [] => ret []                          (* if (!data.length) return []; *)
  | first :: _ =>
      let keys := Js.keys first in
      let '(values, valuePlaceholders) := insert_rows keys data 0 [] [] in
      values <- alloc values ;;
      query conn
        (queryText table keys valuePlaceholders (updateClause keys conflict))
        (Some values)
  end.

(** *** [update] (index.ts, lines 142-169) *)

Definition update (conn : Conn) (table : string) (where_ data : Js.object)
  : M Js.object :=
  let keys := Js.keys data in
  let values := Js.values data in
  let where_keys := Js.keys where_ in
  let where_values := Js.values where_ in
  params <- alloc (values ++ where_values) ;;
  res <- query conn
           ("update " ++ table ++ " set " ++
            join ", "
              (mapi (fun k i => k ++ " = $" ++ string_of_nat (i + 1)) keys) ++
            " where " ++
            join " and "
              (mapi (fun k i =>
                       k ++ " = $" ++
                       string_of_nat (i + 1 + List.length keys))
                    where_keys) ++
            " returning *")
           (Some params) ;;
  match res with
  | [] => throw (RiftError "Update failed: no rows affected")   (* !res[0] *)
  | row :: _ => ret row
  end.

(** *** [remove] (index.ts, lines 182-192) *)

Definition remove (conn : Conn) (table : string) (where_ : Js.object)
  : M unit :=
  let keys := Js.keys where_ in
  let values := Js.values where_ in
  params <- alloc values ;;
  query conn
    ("delete from " ++ table ++ " where " ++
     join " and "
       (mapi (fun k i => k ++ " = $" ++ string_of_nat (i + 1)) keys))
    (Some params) ;;;
  ret tt.

End WithDriver.

End Rift.

(* ===================================================================== *)
(** ** The statements, as the specification words them *)
(* ===================================================================== *)

Module Sql.

Import Js.

(** The positional placeholder number [n]. *)
Definition placeholder (n : nat) : string := "$" ++ string_of_nat n.

(** The tuple of placeholders of row [r] of an insert of [k] columns:
    column [c] is numbered [r*k + c + 1]. *)
Definition row_tuple (k r : nat) : string :=
  "(" ++
  join ", " (map (fun c => placeholder (r * k + c + 1)) (seq 0 k)) ++
  ")".

(** The tuples of [n] rows, in row order. *)
Definition row_tuples (n k : nat) : list string :=
  map (row_tuple k) (seq 0 n).

(** The parameters of an insert: every row's values under the columns
    [cols], row after row. *)
Definition flattened (cols : list string) (rows : list Js.object)
  : list Js.value :=
  flat_map (fun row => map (fun col => get row col) cols) rows.

(** [col = $i] for every column, the first one numbered [first]. *)
Definition assignments (cols : list string) (first : nat) : list string :=
  map (fun j => nth j cols "" ++ " = " ++ placeholder (first + j))
      (seq 0 (List.length cols)).

(** The part of an insert statement before the conflict clause. *)
Definition insert_head (table : string) (cols : list string) (n : nat)
  : string :=
  LF ++ "    INSERT INTO " ++ table ++ " (" ++ join ", " cols ++ ")" ++
  LF ++ "    VALUES " ++ join ", " (row_tuples n (List.length cols)).

(** The end of every insert statement. *)
Definition insert_tail : string := LF ++ "    RETURNING *;" ++ LF ++ "  ".

Definition update_statement (table : string) (cols where_cols : list string)
  : string :=
  "update " ++ table ++
  " set " ++ join ", " (assignments cols 1) ++
  " where " ++ join " and " (assignments where_cols (List.length cols + 1)) ++
  " returning *".

Definition delete_statement (table : string) (where_cols : list string)
  : string :=
  "delete from " ++ table ++
  " where " ++ join " and " (assignments where_cols 1).

(** The text [JSON.stringify] wrote, when it wrote one. *)
Definition written (c : completion (option string)) : string :=
  match c with
  | Normal json => template_of json
  | ThrowsTypeError => ""
  end.

(** The message [query] gives its [RiftError] for what the driver threw,
    when it comes to throwing one. *)
Definition error_message (text : string) (params : list Js.value)
    (e : Rift.Thrown) : string :=
  match e with
  | Rift.ThrownDatabaseError d =>
      ("Database Error: " ++ Rift.message d) ++ LF ++
      "" ++ LF ++
      ("Code: " ++ match Rift.code d with Some c => c | None => "N/A" end)
        ++ LF ++
      ("Detail: " ++ match Rift.detail d with Some c => c | None => "N/A" end)
        ++ LF ++
      ("Hint: " ++ match Rift.hint d with Some c => c | None => "N/A" end)
        ++ LF ++
      ("Position: " ++
         match Rift.position d with Some c => c | None => "N/A" end)
        ++ LF ++
      ("Query: " ++ text) ++ LF ++
      ("Values: " ++ written (JSON_stringify (Arr params)))
  | Rift.ThrownError msg => "Query failed: " ++ msg
  | Rift.ThrownValue _ => "Query failed: unknown error"
  end.

(** The parameter list a call of [query] works with: the caller's array
    or, when none is given, the default empty one. *)
Definition supplied (values : option Rift.Ref) (w : Rift.World)
  : list Js.value :=
  match values with
  | Some r => nth r (Rift.arrays w) []
  | None => []
  end.

(** What [query] returns or throws for the driver's answer. *)
Definition settle (text : string) (params : list Js.value)
    (o : Rift.QueryOutcome) : Rift.Result (list Js.object) :=
  match o with
  | Rift.QueryRows rows => Rift.Ok rows
  | Rift.QueryThrows e =>
      match e, JSON_stringify (Arr params) with
      | Rift.ThrownDatabaseError _, ThrowsTypeError =>
          Rift.Throw Rift.TypeError
      | _, _ => Rift.Throw (Rift.RiftError (error_message text params e))
      end
  end.

(** What [update] makes of the settled answer: its first row, or the
    error of its own when there is none. *)
Definition first_row (r : Rift.Result (list Js.object))
  : Rift.Result Js.object :=
  match r with
  | Rift.Ok [] => Rift.Throw (Rift.RiftError "Update failed: no rows affected")
  | Rift.Ok (row :: _) => Rift.Ok row
  | Rift.Throw e => Rift.Throw e
  end.

End Sql.

(* ===================================================================== *)
(** ** Concrete drivers, worlds and inputs *)
(* ===================================================================== *)

Module Examples.

Import Js Rift.

(** Nothing done yet: no pool, no arrays, no calls. *)
Definition fresh_world : World :=
  {| pool := None; arrays := []; trace := [] |}.

(** A world in which the caller holds one array, [[[1, 2, 3]]]. *)
Definition caller_world : World :=
  {| pool := None;
     arrays := [[Arr [Num 1; Num 2; Num 3]]];
     trace := [] |}.

Definition row1 : Js.object := [("id", Num 1); ("value", Str "a")].
Definition row2 : Js.object := [("id", Num 2); ("value", Str "b")].

(** A database that answers every statement with the same rows. *)
Definition answering (rows : list Js.object) : Driver :=
  {| conn_query := fun _ _ _ _ => QueryRows rows;
     pool_connect := fun _ _ => Connected 7 |}.

(** A database on which every statement fails with [e]. *)
Definition failing (e : Thrown) : Driver :=
  {| conn_query := fun _ _ _ _ => QueryThrows e;
     pool_connect := fun _ _ => Connected 7 |}.

(** A uniqueness violation, as PostgreSQL reports it. *)
Definition unique_violation : DatabaseError :=
  {| message := "duplicate key value violates unique constraint";
     code := Some "23505";
     detail := Some "Key (id)=(1) already exists.";
     hint := None;
     position := None |}.

Definition conf_a : RiftConfig :=
  {| name := "a";
     auth := Some {| host := Some "localhost"; port := Some 5432%Z;
                     database := Some "test"; user := Some "test";
                     password := Some (PasswordString "test") |};
     max := Some 1000%Z;
     initial_script := Some "create table if not exists list (id int)" |}.

Definition conf_b : RiftConfig :=
  {| name := "b"; auth := None; max := Some 1%Z;
     initial_script := Some "drop table list" |}.

(** A pool built with no option and no listener, and a world that holds
    it. *)
Definition plain_pool : Pool :=
  {| pool_options :=
       {| opt_host := None; opt_port := None; opt_database := None;
          opt_user := None; opt_password := None; opt_max := None |};
     pool_listeners := [] |}.

Definition pooled_world : World :=
  {| pool := Some plain_pool;
     arrays := [];
     trace := [NewPool (pool_options plain_pool)] |}.

End Examples.

(* ===================================================================== *)
(** ** What [init_pool] builds, and what a trace says *)
(* ===================================================================== *)

Module Startup.

Import Js Rift.

(** The options [init_pool] gives to [new pg.Pool] (index.ts, lines
    20-27). *)
Definition options_of (conf : RiftConfig) : PoolOptions :=
  {| opt_host := auth_field host (auth conf);
     opt_port := auth_field port (auth conf);
     opt_database := auth_field database (auth conf);
     opt_user := auth_field user (auth conf);
     opt_password := auth_field password (auth conf);
     opt_max := max conf |}.

(** The pool once both listeners are registered (lines 29-30). *)
Definition built_pool (conf : RiftConfig) : Pool :=
  {| pool_options := options_of conf;
     pool_listeners :=
       [("connect", "[" ++ name conf ++ " DB] new connection: ");
        ("remove", "[" ++ name conf ++ " DB] removed connection: ")] |}.

(** The label of the timer around the initial script (lines 33, 36). *)
Definition init_label (conf : RiftConfig) : string :=
  "[" ++ name conf ++ " DB] Init".

(** The world right after the pool is built. *)
Definition with_pool (conf : RiftConfig) (w : World) : World :=
  {| pool := Some (built_pool conf);
     arrays := arrays w;
     trace := trace w ++ [NewPool (options_of conf)] |}.

(** The texts of the statements a trace sent on connections, in order. *)
Definition sent_texts (t : list Event) : list string :=
  flat_map (fun e => match e with
                     | ConnQuery _ text _ => [text]
                     | _ => []
                     end) t.

(** The connections a trace released. *)
Definition released (t : list Event) : list Conn :=
  flat_map (fun e => match e with
                     | ConnRelease conn _ => [conn]
                     | _ => []
                     end) t.

(** A pool that cannot reach the database: [connect] throws [e]. *)
Definition unreachable (e : Thrown) : Driver :=
  {| conn_query := fun _ _ _ _ => QueryRows [];
     pool_connect := fun _ _ => ConnectThrows e |}.

(** A configuration whose initial script is the empty string. *)
Definition conf_blank : RiftConfig :=
  {| name := "c"; auth := None; max := None; initial_script := Some "" |}.

(** A syntax error, as PostgreSQL reports it. *)
Definition syntax_error : DatabaseError :=
  {| message := "syntax error at or near tabel";
     code := Some "42601";
     detail := None;
     hint := None;
     position := Some "8" |}.

End Startup.

Import Js Rift Sql Examples Startup.

(* ===================================================================== *)
(** ** Strings and indexed maps *)
(* ===================================================================== *)

Lemma append_assoc_s (a b c : string) : (a ++ b) ++ c = a ++ (b ++ c).
Proof.
  induction a as [|ch a IH]; simpl; [reflexivity|].
  now rewrite IH.
Qed.

Lemma append_nil_r (a : string) : a ++ "" = a.
Proof.
  induction a as [|ch a IH]; simpl; [reflexivity|].
  now rewrite IH.
Qed.

Lemma join_cons2 (sep x y : string) (l : list string) :
  join sep (x :: y :: l) = x ++ sep ++ join sep (y :: l).
Proof. reflexivity. Qed.

(** Every element of a joined list is a piece of the result. *)
Lemma join_In (sep x : string) (l : list string) :
  In x l -> exists a b, join sep l = a ++ x ++ b.
Proof.
  induction l as [|y l IH]; intros Hin; [contradiction|].
  destruct Hin as [-> | Hin].
  - destruct l as [|z l].
    + exists "", "". simpl. now rewrite append_nil_r.
    + exists "", (sep ++ join sep (z :: l)). reflexivity.
  - destruct l as [|z l]; [contradiction|].
    destruct (IH Hin) as (a & b & E).
    exists (y ++ sep ++ a), b.
    rewrite join_cons2, E.
    now rewrite !append_assoc_s.
Qed.

Lemma map_from_ext {A B : Type} (f g : A -> nat -> B) (s : nat) (l : list A) :
  (forall x i, f x i = g x i) -> map_from f s l = map_from g s l.
Proof.
  intros E. revert s.
  induction l as [|x l IH]; intros s; simpl; [reflexivity|].
  now rewrite E, IH.
Qed.

(** An indexed map whose function ignores the element. *)
Lemma map_from_index {A B : Type} (g : nat -> B) (s : nat) (l : list A) :
  map_from (fun _ i => g i) s l = map g (seq s (List.length l)).
Proof.
  revert s.
  induction l as [|x l IH]; intros s; simpl; [reflexivity|].
  now rewrite IH.
Qed.

(** An indexed map, element by element. *)
Lemma map_from_nth {A B : Type} (f : A -> nat -> B) (d : A) (s : nat)
    (l : list A) :
  map_from f s l =
  map (fun j => f (nth j l d) (s + j)) (seq 0 (List.length l)).
Proof.
  revert s.
  induction l as [|x l IH]; intros s; simpl; [reflexivity|].
  rewrite Nat.add_0_r. f_equal.
  rewrite IH, <- seq_shift, map_map.
  apply map_ext. intros j. now rewrite Nat.add_succ_comm.
Qed.

Lemma mapi_assignments (cols : list string) (first : nat) :
  mapi (fun k i => k ++ " = $" ++ string_of_nat (i + first)) cols =
  assignments cols first.
Proof.
  unfold mapi, assignments.
  rewrite (map_from_nth _ "").
  apply map_ext. intros j. unfold placeholder. simpl.
  now rewrite (Nat.add_comm j first).
Qed.

(* ===================================================================== *)
(** ** [query] *)
(* ===================================================================== *)

Section Query.

Variable drv : Driver.

(** [query] on a caller's array: one call on the connection, its answer
    settled, the store as it was. *)
Lemma query_some (conn : Conn) (text : string) (r : Ref) (w : World) :
  query drv conn text (Some r) w =
  (settle text (nth r (arrays w) [])
     (conn_query drv (trace w) conn text (nth r (arrays w) [])),
   log (ConnQuery conn text (nth r (arrays w) [])) w).
Proof.
  unfold query, bind, ret, deref, call_conn_query, throw, settle,
    error_message.
  cbv beta iota.
  destruct (conn_query drv (trace w) conn text (nth r (arrays w) []))
    as [rows | [d | msg | v]]; try reflexivity.
  destruct (JSON_stringify (Arr (nth r (arrays w) []))); reflexivity.
Qed.

(** [query] without a parameter list: the default [[]] is a fresh array. *)
Lemma query_none (conn : Conn) (text : string) (w : World) :
  query drv conn text None w =
  (settle text [] (conn_query drv (trace w) conn text []),
   log (ConnQuery conn text []) (set_arrays (arrays w ++ [[]]) w)).
Proof.
  unfold query, bind, ret, deref, call_conn_query, throw, settle, alloc.
  cbv beta iota. cbn [arrays trace set_arrays].
  rewrite nth_middle.
  destruct (conn_query drv (trace w) conn text [])
    as [rows | [d | msg | v]]; reflexivity.
Qed.

(** A helper's parameter array, built and handed to [query]. *)
Lemma alloc_query (conn : Conn) (text : string) (params : list Js.value)
    (w : World) :
  (values <- alloc params ;; query drv conn text (Some values)) w =
  (settle text params (conn_query drv (trace w) conn text params),
   log (ConnQuery conn text params) (set_arrays (arrays w ++ [params]) w)).
Proof.
  unfold bind at 1. unfold alloc at 1.
  rewrite query_some. simpl. now rewrite nth_middle.
Qed.

(** C9: a call of [query] leaves every array of the store as it was, the
    caller's parameter list among them, and adds one single call on the
    connection to the trace, whatever the driver answers (rows or a
    throw), so nothing is retried; and when the driver answers with rows,
    these very rows, in the same order, are what [query] returns. *)
Theorem query_frame (conn : Conn) (text : string) (values : option Ref)
    (w : World) :
  let w' := snd (query drv conn text values w) in
  firstn (List.length (arrays w)) (arrays w') = arrays w /\
  supplied values w' = supplied values w /\
  (forall r, values = Some r -> arrays w' = arrays w) /\
  trace w' = (trace w ++ [ConnQuery conn text (supplied values w)])%list /\
  forall rows,
    conn_query drv (trace w) conn text (supplied values w) = QueryRows rows ->
    fst (query drv conn text values w) = Ok rows.
Proof.
  destruct values as [r|]; cbn zeta.
  - rewrite query_some. cbn [snd fst arrays trace log supplied].
    repeat split.
    + apply firstn_all.
    + intros rows E. now rewrite E.
  - rewrite query_none. cbn [snd fst arrays trace log set_arrays supplied].
    repeat split.
    + now rewrite firstn_app, firstn_all, Nat.sub_diag, app_nil_r.
    + intros r E. discriminate E.
    + intros rows E. now rewrite E.
Qed.

(** X17: when the driver's call throws a [pg.DatabaseError] and
    [JSON.stringify] writes the parameter list (its numbers being safe
    integers), [query] throws a [RiftError] whose message is, line after
    line: the summary with the driver's message, an empty line, the code,
    the detail, the hint and the position (each [N/A] when absent), the
    SQL text, and the JSON of the parameter list.  When the driver throws
    any other [Error], the message is [Query failed: ] followed by that
    error's message, and for a thrown value that is no [Error] it is
    [Query failed: unknown error]; neither mentions the SQL text or the
    parameters. *)
Theorem query_failure_message (conn : Conn) (text : string)
    (values : option Ref) (w : World) :
  let params := supplied values w in
  let answer := conn_query drv (trace w) conn text params in
  (forall d json,
     answer = QueryThrows (ThrownDatabaseError d) ->
     JSON_stringify (Arr params) = Normal json ->
     safe (Arr params) = true ->
     fst (query drv conn text values w) =
     Throw (RiftError
       (("Database Error: " ++ message d) ++ LF ++
        "" ++ LF ++
        ("Code: " ++ match code d with Some c => c | None => "N/A" end)
          ++ LF ++
        ("Detail: " ++ match detail d with Some c => c | None => "N/A" end)
          ++ LF ++
        ("Hint: " ++ match hint d with Some c => c | None => "N/A" end)
          ++ LF ++
        ("Position: " ++
           match position d with Some c => c | None => "N/A" end)
          ++ LF ++
        ("Query: " ++ text) ++ LF ++
        ("Values: " ++ template_of json)))) /\
  (forall msg,
     answer = QueryThrows (ThrownError msg) ->
     fst (query drv conn text values w) =
     Throw (RiftError ("Query failed: " ++ msg))) /\
  (forall v,
     answer = QueryThrows (ThrownValue v) ->
     fst (query drv conn text values w) =
     Throw (RiftError "Query failed: unknown error")).
Proof.
  intros params answer. subst params answer.
  assert (E : fst (query drv conn text values w) =
              settle text (supplied values w)
                (conn_query drv (trace w) conn text (supplied values w))).
  { destruct values as [r|];
      [rewrite query_some | rewrite query_none]; reflexivity. }
  rewrite E. repeat split.
  - intros d json Ho Hj _. rewrite Ho. unfold settle, error_message.
    now rewrite Hj.
  - intros msg Ho. now rewrite Ho.
  - intros v Ho. now rewrite Ho.
Qed.

End Query.

(** C4: the message of the [RiftError] is put together inside the
    [catch], and [JSON.stringify(values)] is called there with nothing
    around it.  So when the statement fails with a [pg.DatabaseError] and
    the caller's parameter list holds a BigInt, what leaves [query] is
    the [TypeError] of [JSON.stringify] and not a [RiftError] with the
    code, the SQL text and the parameters. *)
Theorem query_database_error_bigint (d : DatabaseError) (conn : Conn)
    (text : string) (z : Z) :
  fst (query (failing (ThrownDatabaseError d)) conn text (Some 0)
         {| pool := None; arrays := [[BigInt z]]; trace := [] |}) =
  Throw TypeError.
Proof.
  rewrite query_some. reflexivity.
Qed.

(* ===================================================================== *)
(** ** [insert] *)
(* ===================================================================== *)

Section Insert.

Variable drv : Driver.

(** The loop, in closed form: the values of the remaining rows are
    appended in row order and one tuple of placeholders is pushed per
    row, numbered by the row's index. *)
Lemma insert_rows_closed (keys : list string) (data : list Js.object) :
  forall (rowIndex : nat) (values : list Js.value) (ps : list string),
    insert_rows keys data rowIndex values ps =
    ((values ++ flattened keys data)%list,
     (ps ++ map (row_tuple (List.length keys))
              (seq rowIndex (List.length data)))%list).
Proof.
  induction data as [|row data IH]; intros rowIndex values ps; simpl.
  - now rewrite !app_nil_r.
  - rewrite IH. unfold mapi.
    rewrite (map_from_index
               (fun i => "$" ++ string_of_nat
                                  (rowIndex * List.length keys + i + 1))).
    rewrite length_map.
    unfold flattened. simpl.
    now rewrite <- !app_assoc.
Qed.

Lemma length_flattened (keys : list string) (data : list Js.object) :
  List.length (flattened keys data) = List.length data * List.length keys.
Proof.
  unfold flattened.
  induction data as [|row data IH]; simpl; [reflexivity|].
  now rewrite length_app, length_map, IH.
Qed.

Lemma queryText_parts (table : string) (keys : list string) (n : nat)
    (clause : string) :
  queryText table keys (row_tuples n (List.length keys)) clause =
  insert_head table keys n ++ LF ++ "    " ++ clause ++ insert_tail.
Proof.
  unfold queryText, insert_head, insert_tail.
  now rewrite !append_assoc_s.
Qed.

(** [insert] on at least one row: one statement, built from the first
    row's keys, sent with the flattened values. *)
Lemma insert_cons (conn : Conn) (table : string) (first : Js.object)
    (rest : list Js.object) (conflict : option (list string)) (w : World) :
  let data := first :: rest in
  let cols := Js.keys first in
  let text := insert_head table cols (List.length data) ++ LF ++ "    " ++
              updateClause cols conflict ++ insert_tail in
  let params := flattened cols data in
  insert drv conn table data conflict w =
  (settle text params (conn_query drv (trace w) conn text params),
   log (ConnQuery conn text params)
       (set_arrays (arrays w ++ [params]) w)).
Proof.
  intros data cols text params.
  unfold insert. subst data. cbv iota beta. fold cols.
  rewrite insert_rows_closed. cbv iota beta. rewrite !app_nil_l.
  fold (row_tuples (List.length (first :: rest)) (List.length cols)).
  rewrite queryText_parts.
  apply alloc_query.
Qed.

(** C5: [insert] of no rows returns the empty array and leaves the world
    as it was: nothing is sent on the connection, no array is created. *)
Theorem insert_empty (conn : Conn) (table : string)
    (conflict : option (list string)) (w : World) :
  insert drv conn table [] conflict w = (Ok [], w).
Proof. reflexivity. Qed.

(** C1: [insert] of [n >= 1] rows, [k] being the number of keys of the
    first row, sends one statement whose parameter list has [n * k]
    entries: the rows' values under the first row's keys, row after row.
    The statement names these keys as its columns and writes, for row [r]
    and column [c] (both from 0), the placeholder [$(r*k + c + 1)].  For
    the rows [{id: 1, value: "a"}] and [{id: 2, value: "b"}] the columns
    are [(id, value)], the placeholders [($1, $2), ($3, $4)] and the
    parameters [[1, "a", 2, "b"]]. *)
Theorem insert_parameters :
  (forall (conn : Conn) (table : string) (first : Js.object)
          (rest : list Js.object) (conflict : option (list string))
          (w : World),
     let data := first :: rest in
     let cols := Js.keys first in
     let n := List.length data in
     let k := List.length cols in
     let params :=
       flat_map (fun row => map (fun col => get row col) cols) data in
     List.length params = n * k /\
     trace (snd (insert drv conn table data conflict w)) =
     (trace w ++
      [ConnQuery conn
         (LF ++ "    INSERT INTO " ++ table ++ " (" ++ join ", " cols ++ ")" ++
          LF ++ "    VALUES " ++
          join ", "
            (map (fun r =>
                    ("(" ++
                     join ", "
                       (map (fun c =>
                               ("$" ++ string_of_nat (r * k + c + 1))%string)
                            (seq 0 k)) ++
                     ")")%string)
                 (seq 0 n)) ++
          LF ++ "    " ++ updateClause cols conflict ++
          LF ++ "    RETURNING *;" ++
          LF ++ "  ")
         params])%list) /\
  (forall (conn : Conn) (w : World),
     trace (snd (insert drv conn "list"
                   [[("id", Num 1); ("value", Str "a")];
                    [("id", Num 2); ("value", Str "b")]] None w)) =
     (trace w ++
      [ConnQuery conn
         (LF ++ "    INSERT INTO list (id, value)" ++
          LF ++ "    VALUES ($1, $2), ($3, $4)" ++
          LF ++ "    " ++
          LF ++ "    RETURNING *;" ++
          LF ++ "  ")
         [Num 1; Str "a"; Num 2; Str "b"]])%list).
Proof.
  split.
  - intros conn table first rest conflict w data cols n k params.
    split.
    + apply length_flattened.
    + subst data. rewrite insert_cons. cbn [snd trace log set_arrays].
      unfold insert_head, insert_tail, row_tuples, row_tuple, placeholder.
      fold cols. fold k. fold n.
      now rewrite !append_assoc_s.
  - intros conn w. rewrite insert_cons. reflexivity.
Qed.

(** C2: with a non-empty list of conflict columns the statement [insert]
    sends carries, after the values, the clause
    [ON CONFLICT (<conflict columns>) DO UPDATE SET] with
    [col = EXCLUDED.col] for the keys of the first row, all of them, so
    that each such assignment is a piece of the statement; with no list or
    an empty one nothing stands in the clause's place; and in each case
    the statement ends with [RETURNING *;]. *)
Theorem insert_conflict_clause (conn : Conn) (table : string)
    (first : Js.object) (rest : list Js.object) (w : World) :
  let data := first :: rest in
  let cols := Js.keys first in
  let head := insert_head table cols (List.length data) in
  let sent (conflict : option (list string)) (text : string) :=
    trace (snd (insert drv conn table data conflict w)) =
    (trace w ++ [ConnQuery conn text (flattened cols data)])%list in
  (forall c cs,
     sent (Some (c :: cs))
       (head ++ LF ++ "    " ++
        ("ON CONFLICT (" ++ join ", " (c :: cs) ++ ") DO UPDATE SET " ++
         join ", " (map (fun k => k ++ " = EXCLUDED." ++ k) cols)) ++
        LF ++ "    RETURNING *;" ++ LF ++ "  ")) /\
  (forall c cs col,
     In col cols ->
     exists before after,
       sent (Some (c :: cs))
         (before ++ (col ++ " = EXCLUDED." ++ col) ++ after)) /\
  sent None
    (head ++ LF ++ "    " ++ "" ++ LF ++ "    RETURNING *;" ++ LF ++ "  ") /\
  sent (Some [])
    (head ++ LF ++ "    " ++ "" ++ LF ++ "    RETURNING *;" ++ LF ++ "  ").
Proof.
  intros data cols head sent. subst sent data. cbv beta.
  repeat split.
  - intros c cs. rewrite insert_cons. reflexivity.
  - intros c cs col Hin.
    destruct (join_In ", " (col ++ " = EXCLUDED." ++ col)
                (map (fun k => k ++ " = EXCLUDED." ++ k) cols))
      as (a & b & E).
    { apply in_map_iff. now exists col. }
    exists (head ++ LF ++ "    " ++
            "ON CONFLICT (" ++ join ", " (c :: cs) ++ ") DO UPDATE SET " ++ a),
           (b ++ insert_tail).
    rewrite insert_cons. cbn [snd trace log set_arrays].
    unfold updateClause. cbn [has_length].
    fold cols. rewrite E. fold head.
    now rewrite !append_assoc_s.
  - rewrite insert_cons. reflexivity.
  - rewrite insert_cons. reflexivity.
Qed.

End Insert.

(* ===================================================================== *)
(** ** [update] and [remove] *)
(* ===================================================================== *)

Section UpdateRemove.

Variable drv : Driver.

Lemma mapi_assignments_after (cols : list string) (n : nat) :
  mapi (fun k i => k ++ " = $" ++ string_of_nat (i + 1 + n)) cols =
  assignments cols (n + 1).
Proof.
  rewrite <- mapi_assignments. unfold mapi.
  apply map_from_ext. intros x i.
  now rewrite <- Nat.add_assoc, (Nat.add_comm 1 n).
Qed.

(** The two steps [update] and [remove] share: the parameter array is
    built, then [query] runs on it. *)
Ltac alloc_then_query :=
  unfold bind at 1; unfold alloc at 1;
  unfold bind at 1; rewrite query_some;
  cbn [set_arrays arrays trace]; rewrite nth_middle.

(** [update]: one statement, its answer settled by [query], then the
    first row or the error of its own. *)
Lemma update_run (conn : Conn) (table : string) (where_ data : Js.object)
    (w : World) :
  let text := update_statement table (Js.keys data) (Js.keys where_) in
  let params := (Js.values data ++ Js.values where_)%list in
  update drv conn table where_ data w =
  (first_row (settle text params (conn_query drv (trace w) conn text params)),
   log (ConnQuery conn text params)
       (set_arrays (arrays w ++ [params]) w)).
Proof.
  intros text params.
  unfold update.
  rewrite (mapi_assignments (Js.keys data) 1).
  rewrite mapi_assignments_after.
  fold (update_statement table (Js.keys data) (Js.keys where_)). fold text.
  fold params.
  alloc_then_query.
  destruct (settle text params (conn_query drv (trace w) conn text params))
    as [[|row rows] | x]; reflexivity.
Qed.

(** [remove]: one statement, its rows dropped. *)
Lemma remove_run (conn : Conn) (table : string) (where_ : Js.object)
    (w : World) :
  let text := delete_statement table (Js.keys where_) in
  let params := Js.values where_ in
  remove drv conn table where_ w =
  (match settle text params (conn_query drv (trace w) conn text params) with
   | Ok _ => Ok tt
   | Throw e => Throw e
   end,
   log (ConnQuery conn text params)
       (set_arrays (arrays w ++ [params]) w)).
Proof.
  intros text params.
  unfold remove.
  rewrite (mapi_assignments (Js.keys where_) 1).
  fold (delete_statement table (Js.keys where_)). fold text. fold params.
  alloc_then_query.
  destruct (settle text params (conn_query drv (trace w) conn text params))
    as [rows | x]; reflexivity.
Qed.

(** C6: for a [data] of [N] keys and a [where] of [M] keys, [update] sends
    one statement, [update <table> set] with [key = $i] for the keys of
    [data], numbered from 1 to [N] and joined by commas, then [where] with
    [key = $j] for the keys of [where], numbered from [N+1] to [N+M] and
    joined by [and], then [returning *]; its parameters are the values of
    [data] followed by the values of [where]. *)
Theorem update_statement_sent (conn : Conn) (table : string)
    (where_ data : Js.object) (w : World) :
  let cols := Js.keys data in
  let where_cols := Js.keys where_ in
  let N := List.length cols in
  let M := List.length where_cols in
  trace (snd (update drv conn table where_ data w)) =
  (trace w ++
   [ConnQuery conn
      ("update " ++ table ++
       " set " ++
       join ", "
         (map (fun i =>
                 (nth i cols "" ++ " = $" ++ string_of_nat (1 + i))%string)
              (seq 0 N)) ++
       " where " ++
       join " and "
         (map (fun j =>
                 (nth j where_cols "" ++ " = $" ++
                  string_of_nat (N + 1 + j))%string)
              (seq 0 M)) ++
       " returning *")
      (Js.values data ++ Js.values where_)])%list.
Proof.
  intros cols where_cols N M.
  rewrite update_run. reflexivity.
Qed.

(** C3: when the statement of [update] comes back with no row, [update]
    throws the [RiftError] [Update failed: no rows affected]; when it
    comes back with one row, [update] returns that row. *)
Theorem update_rows (conn : Conn) (table : string) (where_ data : Js.object)
    (w : World) :
  let answer :=
    conn_query drv (trace w) conn
      (update_statement table (Js.keys data) (Js.keys where_))
      (Js.values data ++ Js.values where_) in
  (answer = QueryRows [] ->
   fst (update drv conn table where_ data w) =
   Throw (RiftError "Update failed: no rows affected")) /\
  (forall row,
     answer = QueryRows [row] ->
     fst (update drv conn table where_ data w) = Ok row).
Proof.
  intros answer. subst answer.
  split; [intros E | intros row E]; rewrite update_run; cbn [fst];
    now rewrite E.
Qed.

(** C8: [remove] sends one statement, [delete from <table> where] with
    [key = $i] for the keys of [where], numbered from 1 and joined by
    [and], and nothing after it; its parameters are the values of
    [where].  Whatever rows come back, none included, [remove] returns
    without a value and without an error. *)
Theorem remove_statement_sent (conn : Conn) (table : string)
    (where_ : Js.object) (w : World) :
  let where_cols := Js.keys where_ in
  let M := List.length where_cols in
  let text :=
    "delete from " ++ table ++ " where " ++
    join " and "
      (map (fun j => nth j where_cols "" ++ " = $" ++ string_of_nat (1 + j))
           (seq 0 M)) in
  trace (snd (remove drv conn table where_ w)) =
    (trace w ++ [ConnQuery conn text (Js.values where_)])%list /\
  (forall rows,
     conn_query drv (trace w) conn text (Js.values where_) = QueryRows rows ->
     fst (remove drv conn table where_ w) = Ok tt).
Proof.
  intros where_cols M text.
  rewrite remove_run.
  split; [reflexivity|].
  intros rows E. cbn [fst].
  change (delete_statement table (Js.keys where_)) with text.
  now rewrite E.
Qed.

(** C10: with an empty [where], [remove] still sends its statement, which
    is [delete from <table> where ] with nothing after it, and [update]
    sends [update <table> set ... where ] with no predicate before
    [ returning *]: nothing checks the mapping before the text is built
    and handed to the connection. *)
Theorem empty_where_sent (conn : Conn) (table : string) (data : Js.object)
    (w : World) :
  trace (snd (remove drv conn table [] w)) =
    (trace w ++ [ConnQuery conn ("delete from " ++ table ++ " where ") []])%list
  /\
  trace (snd (update drv conn table [] data w)) =
    (trace w ++
     [ConnQuery conn
        ("update " ++ table ++ " set " ++
         join ", " (assignments (Js.keys data) 1) ++
         " where " ++ "" ++ " returning *")
        (Js.values data)])%list.
Proof.
  split.
  - rewrite remove_run. reflexivity.
  - rewrite update_run. cbn [snd trace log set_arrays Js.values map].
    now rewrite app_nil_r.
Qed.

End UpdateRemove.

(* ===================================================================== *)
(** ** [init_pool] *)
(* ===================================================================== *)

Section InitPool.

Variable drv : Driver.

(** The pool that a first call of [init_pool] builds from [conf]. *)
Lemma init_pool_first (conf : RiftConfig) (w : World) :
  pool w = None ->
  pool (snd (init_pool drv conf w)) =
  Some {| pool_options :=
            {| opt_host := auth_field host (auth conf);
               opt_port := auth_field port (auth conf);
               opt_database := auth_field database (auth conf);
               opt_user := auth_field user (auth conf);
               opt_password := auth_field password (auth conf);
               opt_max := max conf |};
          pool_listeners :=
            [("connect", "[" ++ name conf ++ " DB] new connection: ");
             ("remove", "[" ++ name conf ++ " DB] removed connection: ")] |}.
Proof.
  intros Hnone.
  unfold init_pool, bind, get_pool, new_pool, pool_on, emit. rewrite Hnone.
  cbn [pool set_pool log].
  destruct (falsy (initial_script conf)); [reflexivity|].
  cbn [pool set_pool log].
  unfold call_pool_connect, using_conn.
  match goal with
  | |- context [pool_connect drv ?t ?p] => destruct (pool_connect drv t p)
  end; [|reflexivity].
  rewrite query_none.
  match goal with
  | |- context [settle ?t ?ps ?o] => destruct (settle t ps o)
  end; reflexivity.
Qed.

(** C7: when a pool exists, a call of [init_pool], whatever its
    configuration, returns at once and leaves the world as it was: no
    pool is built, the pool there is keeps its options and listeners,
    nothing is sent on any connection.  So after a first call, which sets
    the pool from its own configuration whether or not its script
    succeeds, a second call with another configuration changes nothing. *)
Theorem init_pool_idempotent :
  (forall (conf : RiftConfig) (w : World) (p : Pool),
     pool w = Some p ->
     init_pool drv conf w = (Ok tt, w)) /\
  (forall (conf1 conf2 : RiftConfig) (w : World),
     pool w = None ->
     let w1 := snd (init_pool drv conf1 w) in
     pool w1 =
       Some {| pool_options :=
                 {| opt_host := auth_field host (auth conf1);
                    opt_port := auth_field port (auth conf1);
                    opt_database := auth_field database (auth conf1);
                    opt_user := auth_field user (auth conf1);
                    opt_password := auth_field password (auth conf1);
                    opt_max := max conf1 |};
               pool_listeners :=
                 [("connect", "[" ++ name conf1 ++ " DB] new connection: ");
                  ("remove", "[" ++ name conf1 ++ " DB] removed connection: ")]
            |} /\
     init_pool drv conf2 w1 = (Ok tt, w1)).
Proof.
  assert (again : forall conf w p,
             pool w = Some p -> init_pool drv conf w = (Ok tt, w)).
  { intros conf w p Hp.
    unfold init_pool, bind, get_pool, ret. now rewrite Hp. }
  split; [exact again|].
  intros conf1 conf2 w Hnone w1.
  pose proof (init_pool_first conf1 w Hnone) as Hp. fold w1 in Hp.
  split; [exact Hp|].
  now apply (again conf2 w1 _ Hp).
Qed.

End InitPool.

(* ===================================================================== *)
(** ** The theorems at concrete inputs *)
(* ===================================================================== *)

(** A select over the caller's array [[[1, 2, 3]]] that the database
    answers with two rows: the array is as before, the rows come back. *)
Lemma query_frame_witness :
  conn_query (answering [row1; row2]) (trace caller_world) 1
    "select * from list where id = any($1)" (supplied (Some 0) caller_world)
    = QueryRows [row1; row2] /\
  arrays (snd (query (answering [row1; row2]) 1
                 "select * from list where id = any($1)" (Some 0)
                 caller_world)) = arrays caller_world /\
  fst (query (answering [row1; row2]) 1
         "select * from list where id = any($1)" (Some 0) caller_world)
    = Ok [row1; row2].
Proof.
  pose proof (query_frame (answering [row1; row2]) 1
                "select * from list where id = any($1)" (Some 0)
                caller_world) as (_ & _ & Hsame & _ & Hrows).
  split; [reflexivity|].
  split.
  - exact (Hsame 0 eq_refl).
  - exact (Hrows [row1; row2] eq_refl).
Defined.

(** A uniqueness violation: the message carries the code, the detail, the
    statement and the parameters. *)
Lemma query_failure_message_witness :
  fst (query (failing (ThrownDatabaseError unique_violation)) 1
         "insert into list (id) values ($1)" (Some 0) caller_world) =
  Throw (RiftError
    ("Database Error: duplicate key value violates unique constraint" ++ LF ++
     "" ++ LF ++
     "Code: 23505" ++ LF ++
     "Detail: Key (id)=(1) already exists." ++ LF ++
     "Hint: N/A" ++ LF ++
     "Position: N/A" ++ LF ++
     "Query: insert into list (id) values ($1)" ++ LF ++
     "Values: [[1,2,3]]")).
Proof.
  exact (proj1 (query_failure_message
                  (failing (ThrownDatabaseError unique_violation)) 1
                  "insert into list (id) values ($1)" (Some 0) caller_world)
           unique_violation (Some "[[1,2,3]]") eq_refl eq_refl eq_refl).
Defined.

(** An upsert of two rows on [id]: the assignment of [value] is in the
    statement. *)
Lemma insert_conflict_clause_witness :
  In "value" (Js.keys row1) /\
  exists before after,
    trace (snd (insert (answering []) 1 "list" [row1; row2] (Some ["id"])
                  fresh_world)) =
    (trace fresh_world ++
     [ConnQuery 1 (before ++ ("value" ++ " = EXCLUDED." ++ "value") ++ after)
        (flattened (Js.keys row1) [row1; row2])])%list.
Proof.
  assert (Hin : In "value" (Js.keys row1)) by (simpl; auto).
  split; [exact Hin|].
  exact (proj1 (proj2 (insert_conflict_clause (answering []) 1 "list" row1
                         [row2] fresh_world))
           "id" [] "value" Hin).
Defined.

(** The update of [{id: 1}] with [{value: "z"}]: no row throws, one row
    is returned. *)
Lemma update_rows_witness :
  fst (update (answering []) 1 "list" [("id", Num 1)] [("value", Str "z")]
         fresh_world) =
    Throw (RiftError "Update failed: no rows affected") /\
  fst (update (answering [[("id", Num 1); ("value", Str "z")]]) 1 "list"
         [("id", Num 1)] [("value", Str "z")] fresh_world) =
    Ok [("id", Num 1); ("value", Str "z")].
Proof.
  split.
  - apply (proj1 (update_rows (answering []) 1 "list" [("id", Num 1)]
                    [("value", Str "z")] fresh_world)).
    reflexivity.
  - apply (proj2 (update_rows
                    (answering [[("id", Num 1); ("value", Str "z")]]) 1
                    "list" [("id", Num 1)] [("value", Str "z")] fresh_world)).
    reflexivity.
Defined.

(** A delete that matches nothing. *)
Lemma remove_statement_sent_witness :
  fst (remove (answering []) 1 "list" [("id", Num 1)] fresh_world) = Ok tt.
Proof.
  apply (proj2 (remove_statement_sent (answering []) 1 "list" [("id", Num 1)]
                  fresh_world) []).
  reflexivity.
Defined.

(** [init_pool] with [conf_b] where a pool exists, and with [conf_a] then
    [conf_b] where none does. *)
Lemma init_pool_idempotent_witness :
  (pool pooled_world = Some plain_pool /\
   init_pool (answering []) conf_b pooled_world = (Ok tt, pooled_world)) /\
  (pool fresh_world = None /\
   init_pool (answering []) conf_b
     (snd (init_pool (answering []) conf_a fresh_world)) =
   (Ok tt, snd (init_pool (answering []) conf_a fresh_world))).
Proof.
  split; (split; [reflexivity|]).
  - exact (proj1 (init_pool_idempotent (answering []))
             conf_b pooled_world plain_pool eq_refl).
  - exact (proj2 (proj2 (init_pool_idempotent (answering []))
                    conf_a conf_b fresh_world eq_refl)).
Defined.

(* ===================================================================== *)
(** ** [init_pool], the first call *)
(* ===================================================================== *)

Section FirstCall.

Variable drv : Driver.

(** The first call, step by step: the pool is built; without a script
    that is all; with one, a connection is taken, the script sent on it
    and the connection released, whether the script went through or not. *)
Lemma init_pool_fresh (conf : RiftConfig) (w : World) :
  pool w = None ->
  init_pool drv conf w =
  if falsy (initial_script conf) then (Ok tt, with_pool conf w)
  else
    let script := nullish (initial_script conf) "" in
    let t1 :=
      (trace (with_pool conf w) ++ [ConsoleTime (init_label conf)])%list in
    match pool_connect drv t1 (built_pool conf) with
    | ConnectThrows e =>
        (Throw (Uncaught e),
         {| pool := Some (built_pool conf);
            arrays := arrays w;
            trace := t1 ++ [PoolConnect] |})
    | Connected conn =>
        match conn_query drv (t1 ++ [PoolConnect]) conn script [] with
        | QueryRows _ =>
            (Ok tt,
             {| pool := Some (built_pool conf);
                arrays := arrays w ++ [[]];
                trace := t1 ++ [PoolConnect; ConnQuery conn script [];
                                ConsoleTimeEnd (init_label conf);
                                ConnRelease conn true] |})
        | QueryThrows e =>
            (Throw (RiftError (error_message script [] e)),
             {| pool := Some (built_pool conf);
                arrays := arrays w ++ [[]];
                trace := t1 ++ [PoolConnect; ConnQuery conn script [];
                                ConnRelease conn true] |})
        end
    end.
Proof.
  intros Hnone.
  unfold init_pool, bind, get_pool, new_pool, pool_on, emit. rewrite Hnone.
  unfold with_pool, built_pool, init_label, options_of.
  destruct (falsy (initial_script conf)); [reflexivity|].
  unfold call_pool_connect, using_conn.
  cbn [pool set_pool set_arrays log trace arrays pool_options pool_listeners
       app].
  match goal with
  | |- context [pool_connect drv ?t ?p] =>
      destruct (pool_connect drv t p) as [conn | e]
  end.
  - rewrite query_none.
    cbn [pool set_pool set_arrays log trace arrays].
    match goal with
    | |- context [conn_query drv ?t conn ?q []] =>
        destruct (conn_query drv t conn q []) as [rows | [d | msg | v]]
    end;
      unfold settle, log, set_pool, set_arrays; cbn [pool arrays trace];
      try change (JSON_stringify (Arr []))
        with (@Normal (option string) (Some "[]"));
      cbv iota; cbn [pool arrays trace]; rewrite <- !app_assoc;
      reflexivity.
  - unfold log, set_pool, set_arrays; cbn [pool arrays trace].
    rewrite <- !app_assoc. reflexivity.
Qed.

Lemma falsy_script (conf : RiftConfig) (script : string) :
  initial_script conf = Some script -> script <> "" ->
  falsy (initial_script conf) = false /\
  nullish (initial_script conf) "" = script.
Proof.
  intros E Hne. rewrite E. split; [|reflexivity].
  now apply String.eqb_neq.
Qed.

(** X1: with no pool yet and no initial script, or an empty one, [init_pool]
    builds the pool from the configuration, registers its two listeners
    and returns: no connection is taken, no statement is sent, no timer is
    started. *)
Theorem init_pool_without_script (conf : RiftConfig) (w : World) :
  pool w = None ->
  initial_script conf = None \/ initial_script conf = Some "" ->
  init_pool drv conf w =
  (Ok tt,
   {| pool := Some (built_pool conf);
      arrays := arrays w;
      trace := trace w ++ [NewPool (options_of conf)] |}).
Proof.
  intros Hnone Hscript.
  rewrite init_pool_fresh by exact Hnone.
  now destruct Hscript as [-> | ->].
Qed.

(** X2: with no pool yet and a script that goes through, [init_pool]
    builds the pool, starts the timer, takes one connection, sends the
    script on it with an empty parameter list, stops the timer and then
    releases that connection with [release(true)]; it returns normally. *)
Theorem init_pool_script_runs (conf : RiftConfig) (w : World)
    (script : string) (conn : Conn) (rows : list Js.object) :
  let t1 := (trace w ++ [NewPool (options_of conf);
                         ConsoleTime (init_label conf)])%list in
  pool w = None ->
  initial_script conf = Some script -> script <> "" ->
  pool_connect drv t1 (built_pool conf) = Connected conn ->
  conn_query drv (t1 ++ [PoolConnect]) conn script [] = QueryRows rows ->
  init_pool drv conf w =
  (Ok tt,
   {| pool := Some (built_pool conf);
      arrays := arrays w ++ [[]];
      trace := t1 ++ [PoolConnect; ConnQuery conn script [];
                      ConsoleTimeEnd (init_label conf);
                      ConnRelease conn true] |}).
Proof.
  intros t1 Hnone E Hne Hconn Hrows. subst t1.
  destruct (falsy_script conf script E Hne) as [Hf Hs].
  rewrite init_pool_fresh by exact Hnone.
  rewrite Hf, Hs. cbn [with_pool trace]. cbn zeta.
  rewrite <- !app_assoc in *. cbn [app] in *.
  rewrite Hconn, Hrows. now rewrite <- !app_assoc.
Qed.

(** X3: when the script fails, [init_pool] throws the [RiftError] that
    [query] made of the failure, the timer is not stopped, and the
    connection is released all the same, as the last thing done.  The pool
    stays in place: a later call of [init_pool], whatever its
    configuration, returns normally without sending the script again. *)
Theorem init_pool_script_fails (conf : RiftConfig) (w : World)
    (script : string) (conn : Conn) (e : Thrown) :
  let t1 := (trace w ++ [NewPool (options_of conf);
                         ConsoleTime (init_label conf)])%list in
  let after :=
    {| pool := Some (built_pool conf);
       arrays := arrays w ++ [[]];
       trace := t1 ++ [PoolConnect; ConnQuery conn script [];
                       ConnRelease conn true] |} in
  pool w = None ->
  initial_script conf = Some script -> script <> "" ->
  pool_connect drv t1 (built_pool conf) = Connected conn ->
  conn_query drv (t1 ++ [PoolConnect]) conn script [] = QueryThrows e ->
  init_pool drv conf w =
    (Throw (RiftError (error_message script [] e)), after) /\
  forall conf2, init_pool drv conf2 after = (Ok tt, after).
Proof.
  intros t1 after Hnone E Hne Hconn Hthrows. subst after t1.
  destruct (falsy_script conf script E Hne) as [Hf Hs].
  split.
  - rewrite init_pool_fresh by exact Hnone.
    rewrite Hf, Hs. cbn [with_pool trace]. cbn zeta.
    rewrite <- !app_assoc in *. cbn [app] in *.
    rewrite Hconn, Hthrows. now rewrite <- !app_assoc.
  - intros conf2. reflexivity.
Qed.

(** X4: when no connection can be taken, [init_pool] throws what
    [pool.connect] threw, as it is and not as a [RiftError]; the script is
    not sent and nothing is released.  The pool stays in place, so that a
    later call of [init_pool] returns normally and the script is never
    sent. *)
Theorem init_pool_connect_fails (conf : RiftConfig) (w : World)
    (script : string) (e : Thrown) :
  let t1 := (trace w ++ [NewPool (options_of conf);
                         ConsoleTime (init_label conf)])%list in
  let after :=
    {| pool := Some (built_pool conf);
       arrays := arrays w;
       trace := t1 ++ [PoolConnect] |} in
  pool w = None ->
  initial_script conf = Some script -> script <> "" ->
  pool_connect drv t1 (built_pool conf) = ConnectThrows e ->
  init_pool drv conf w = (Throw (Uncaught e), after) /\
  forall conf2, init_pool drv conf2 after = (Ok tt, after).
Proof.
  intros t1 after Hnone E Hne Hconn. subst after t1.
  destruct (falsy_script conf script E Hne) as [Hf Hs].
  split.
  - rewrite init_pool_fresh by exact Hnone.
    rewrite Hf. cbn [with_pool trace]. cbn zeta.
    rewrite <- !app_assoc in *. cbn [app] in *.
    now rewrite Hconn.
  - intros conf2. reflexivity.
Qed.

End FirstCall.

(* ===================================================================== *)
(** ** What the helpers return and throw *)
(* ===================================================================== *)

Section Outcomes.

Variable drv : Driver.

(** [insert] in full, the empty case included. *)
Lemma insert_run (conn : Conn) (table : string) (data : list Js.object)
    (conflict : option (list string)) (w : World) :
  insert drv conn table data conflict w =
  match data with
  | [] => (Ok [], w)
  | first :: _ =>
      let cols := Js.keys first in
      let text := insert_head table cols (List.length data) ++ LF ++ "    " ++
                  updateClause cols conflict ++ insert_tail in
      let params := flattened cols data in
      (settle text params (conn_query drv (trace w) conn text params),
       log (ConnQuery conn text params)
           (set_arrays (arrays w ++ [params]) w))
  end.
Proof.
  destruct data as [|first rest]; [reflexivity|].
  apply insert_cons.
Qed.

Lemma settle_throws (text : string) (params : list Js.value)
    (o : QueryOutcome) (x : Exn) :
  settle text params o = Throw x ->
  exists e,
    o = QueryThrows e /\
    (x = RiftError (error_message text params e) \/
     (x = TypeError /\
      (exists d, e = ThrownDatabaseError d) /\
      JSON_stringify (Arr params) = ThrowsTypeError)).
Proof.
  destruct o as [rows | e]; unfold settle; intros H; [discriminate H|].
  exists e. split; [reflexivity|].
  destruct e as [d | msg | v];
    [destruct (JSON_stringify (Arr params)) as [json|] eqn:EJ|..];
    injection H as <-; eauto 6.
Qed.

Lemma prefix_append (a b : string) : prefix a (a ++ b) = true.
Proof.
  induction a as [|c a IH]; simpl.
  - now destruct b.
  - destruct (ascii_dec c c) as [_ | Hne]; [exact IH | now elim Hne].
Qed.

Lemma error_message_prefix (text : string) (params : list Js.value)
    (e : Thrown) :
  prefix (match e with
          | ThrownDatabaseError _ => "Database Error: "
          | _ => "Query failed: "
          end) (error_message text params e) = true.
Proof.
  destruct e as [d | msg | v]; unfold error_message.
  - rewrite append_assoc_s. apply prefix_append.
  - apply prefix_append.
  - apply (prefix_append "Query failed: " "unknown error").
Qed.

(** X5: [query] throws only when the driver's call threw, and what
    leaves it is never the driver's own error.  It is a [RiftError] whose
    message starts with [Database Error: ] for a [pg.DatabaseError] and
    with [Query failed: ] for anything else; or it is the [TypeError] of
    [JSON.stringify], and this only for a [pg.DatabaseError] with a
    parameter list that [JSON.stringify] cannot write. *)
Theorem query_throws (conn : Conn) (text : string) (values : option Ref)
    (w : World) (x : Exn) :
  fst (query drv conn text values w) = Throw x ->
  exists e,
    conn_query drv (trace w) conn text (supplied values w) = QueryThrows e /\
    ((exists msg,
        x = RiftError msg /\
        prefix (match e with
                | ThrownDatabaseError _ => "Database Error: "
                | _ => "Query failed: "
                end) msg = true) \/
     (x = TypeError /\
      (exists d, e = ThrownDatabaseError d) /\
      JSON_stringify (Arr (supplied values w)) = ThrowsTypeError)).
Proof.
  intros H.
  assert (Hs : settle text (supplied values w)
                 (conn_query drv (trace w) conn text (supplied values w))
               = Throw x).
  { destruct values as [r|];
      [rewrite query_some in H | rewrite query_none in H]; exact H. }
  destruct (settle_throws _ _ _ _ Hs) as (e & Ho & [-> | Hte]).
  - exists e. split; [exact Ho|]. left.
    exists (error_message text (supplied values w) e).
    split; [reflexivity | apply error_message_prefix].
  - exists e. split; [exact Ho|]. now right.
Qed.

(** X6: no error of the driver leaves [insert], [update] or [remove] as
    it is.  What they throw is a [RiftError], or else the [TypeError] of
    [JSON.stringify], and this only when [JSON.stringify] cannot write
    the parameter list they sent. *)
Theorem helpers_throw (conn : Conn) (table : string) (w : World) (x : Exn) :
  (forall data conflict,
     fst (insert drv conn table data conflict w) = Throw x ->
     (exists msg, x = RiftError msg) \/
     (x = TypeError /\
      JSON_stringify (Arr (flattened (Js.keys (hd [] data)) data)) =
      ThrowsTypeError)) /\
  (forall where_ data,
     fst (update drv conn table where_ data w) = Throw x ->
     (exists msg, x = RiftError msg) \/
     (x = TypeError /\
      JSON_stringify (Arr (Js.values data ++ Js.values where_)) =
      ThrowsTypeError)) /\
  (forall where_,
     fst (remove drv conn table where_ w) = Throw x ->
     (exists msg, x = RiftError msg) \/
     (x = TypeError /\
      JSON_stringify (Arr (Js.values where_)) = ThrowsTypeError)).
Proof.
  split; [|split].
  - intros data conflict H. rewrite insert_run in H.
    destruct data as [|first rest]; [discriminate H|].
    destruct (settle_throws _ _ _ _ H) as (e & _ & [-> | (-> & _ & Hj)]);
      [left; eauto | right; split; [reflexivity | exact Hj]].
  - intros where_ data H. rewrite update_run in H. cbn [fst] in H.
    destruct (settle _ _ _) as [[|row rows] | y] eqn:Hs; simpl in H;
      try discriminate H.
    + injection H as <-. left. eauto.
    + injection H as <-.
      destruct (settle_throws _ _ _ _ Hs) as (e & _ & [-> | (-> & _ & Hj)]);
        [left; eauto | right; split; [reflexivity | exact Hj]].
  - intros where_ H. rewrite remove_run in H. cbn [fst] in H.
    destruct (settle _ _ _) as [rows | y] eqn:Hs; [discriminate H|].
    injection H as <-.
    destruct (settle_throws _ _ _ _ Hs) as (e & _ & [-> | (-> & _ & Hj)]);
      [left; eauto | right; split; [reflexivity | exact Hj]].
Qed.

(** X7: [insert] hands back the rows of the answer as they are, however
    many there are, none included: unlike [update] it has no error of its
    own for an answer without rows. *)
Theorem insert_returns_rows (conn : Conn) (table : string)
    (first : Js.object) (rest : list Js.object)
    (conflict : option (list string)) (w : World) (text : string)
    (params : list Js.value) (rows : list Js.object) :
  trace (snd (insert drv conn table (first :: rest) conflict w)) =
    (trace w ++ [ConnQuery conn text params])%list ->
  conn_query drv (trace w) conn text params = QueryRows rows ->
  fst (insert drv conn table (first :: rest) conflict w) = Ok rows.
Proof.
  rewrite insert_cons. cbn [fst snd trace log set_arrays].
  match goal with
  | |- context [settle ?t ?p _] => generalize t, p
  end.
  intros T P Ht Ho.
  apply app_inv_head in Ht. injection Ht as -> ->.
  now rewrite Ho.
Qed.

(** X8: when the answer has several rows, [update] returns the first and
    drops the others. *)
Theorem update_returns_first_row (conn : Conn) (table : string)
    (where_ data : Js.object) (w : World) (row : Js.object)
    (more : list Js.object) :
  conn_query drv (trace w) conn
    (update_statement table (Js.keys data) (Js.keys where_))
    (Js.values data ++ Js.values where_) = QueryRows (row :: more) ->
  fst (update drv conn table where_ data w) = Ok row.
Proof.
  intros E. rewrite update_run. cbn [fst]. now rewrite E.
Qed.

(** X9: [update] throws [Update failed: no rows affected] exactly when
    the driver answered with no row: a failure of the statement itself
    never comes out under that message. *)
Theorem update_no_rows_iff (conn : Conn) (table : string)
    (where_ data : Js.object) (w : World) :
  fst (update drv conn table where_ data w) =
    Throw (RiftError "Update failed: no rows affected") <->
  conn_query drv (trace w) conn
    (update_statement table (Js.keys data) (Js.keys where_))
    (Js.values data ++ Js.values where_) = QueryRows [].
Proof.
  rewrite update_run. cbn [fst].
  destruct (conn_query drv _ conn _ _) as [[|row rows] | e];
    unfold settle, first_row.
  - split; reflexivity.
  - split; intros H; discriminate H.
  - split; intros H; [|discriminate H].
    exfalso.
    destruct e as [d | msg | v];
      [destruct (JSON_stringify (Arr _))|..];
      unfold error_message in H; discriminate H.
Qed.

End Outcomes.

(* ===================================================================== *)
(** ** Which value goes with which placeholder *)
(* ===================================================================== *)

Section Binding.

Variable drv : Driver.

(** The flattened values, entry by entry. *)
Lemma nth_error_flattened (cols : list string) :
  forall (data : list Js.object) (r c : nat),
    r < List.length data -> c < List.length cols ->
    nth_error (flattened cols data) (r * List.length cols + c) =
    Some (get (nth r data []) (nth c cols "")).
Proof.
  induction data as [|row data IH]; intros r c Hr Hc; simpl in Hr; [lia|].
  unfold flattened. simpl flat_map. fold (flattened cols data).
  destruct r as [|r].
  - simpl. rewrite nth_error_app1 by (rewrite length_map; exact Hc).
    rewrite nth_error_map, (nth_error_nth' cols "" Hc). reflexivity.
  - rewrite nth_error_app2 by (rewrite length_map; simpl; lia).
    rewrite length_map.
    replace (S r * List.length cols + c - List.length cols)
      with (r * List.length cols + c) by (simpl; lia).
    simpl nth. apply IH; lia.
Qed.

Lemma own_missing (row : Js.object) (key : string) :
  ~ In key (Js.keys row) -> own row key = None.
Proof.
  induction row as [|[k v] row IH]; intros Hnot; simpl; [reflexivity|].
  destruct (String.eqb_spec k key) as [-> | Hne].
  - elim Hnot. now left.
  - apply IH. intros Hin. apply Hnot. now right.
Qed.

Lemma get_missing (row : Js.object) (key : string) :
  ~ In key (Js.keys row) ->
  get row key = if inherited key then Inherited key else Undefined.
Proof.
  intros Hnot. unfold get. now rewrite own_missing.
Qed.

(** X10: in the statement [insert] sends, the parameter behind the
    placeholder of row [r] and column [c], the one at index [r*k + c], is
    [row[key]] for row [r] and the [c]-th key of the first row: the row's
    own property, or without one what the prototype chain answers. *)
Theorem insert_binds_row_values (conn : Conn) (table : string)
    (first : Js.object) (rest : list Js.object)
    (conflict : option (list string)) (w : World) (r c : nat) :
  let data := first :: rest in
  let cols := Js.keys first in
  let k := List.length cols in
  r < List.length data -> c < k ->
  exists text params,
    trace (snd (insert drv conn table data conflict w)) =
      (trace w ++ [ConnQuery conn text params])%list /\
    nth_error params (r * k + c) =
      Some (get (nth r data []) (nth c cols "")).
Proof.
  intros data cols k Hr Hc. subst data.
  rewrite insert_cons. cbn [snd trace log set_arrays].
  eexists. eexists. split; [reflexivity|].
  now apply nth_error_flattened.
Qed.

(** X11: a row that lacks one of the first row's keys is not refused.
    The parameter in its place is what the prototype chain answers for
    that key: [undefined], unless the key is a name of
    [Object.prototype], in which case it is the inherited value. *)
Theorem insert_missing_key (conn : Conn) (table : string)
    (first : Js.object) (rest : list Js.object)
    (conflict : option (list string)) (w : World) (r c : nat) :
  let data := first :: rest in
  let cols := Js.keys first in
  let k := List.length cols in
  r < List.length data -> c < k ->
  ~ In (nth c cols "") (Js.keys (nth r data [])) ->
  exists text params,
    trace (snd (insert drv conn table data conflict w)) =
      (trace w ++ [ConnQuery conn text params])%list /\
    List.length params = List.length data * k /\
    nth_error params (r * k + c) =
      Some (if inherited (nth c cols "")
            then Inherited (nth c cols "")
            else Undefined).
Proof.
  intros data cols k Hr Hc Hmiss. subst data.
  rewrite insert_cons. cbn [snd trace log set_arrays].
  eexists. eexists. split; [reflexivity|]. split.
  - apply length_flattened.
  - rewrite nth_error_flattened by assumption.
    now rewrite get_missing.
Qed.

Lemma nth_error_assignments (cols : list string) (first i : nat)
    (key : string) :
  nth_error cols i = Some key ->
  nth_error (assignments cols first) i =
  Some (key ++ " = $" ++ string_of_nat (first + i)).
Proof.
  intros E. unfold assignments.
  assert (Hi : i < List.length cols)
    by (apply nth_error_Some; rewrite E; discriminate).
  rewrite nth_error_map, (nth_error_nth' _ 0) by (now rewrite length_seq).
  rewrite seq_nth by exact Hi. simpl.
  now rewrite (nth_error_nth _ _ "" E).
Qed.

(** X12: in the statement [update] sends, the [i]-th pair [key: v] of
    [data] is written [key = $(i+1)] and [v] is the parameter number
    [i+1]; the [j]-th pair of [where] is written [key = $(N+j+1)], [N]
    being the number of pairs of [data], and its value is the parameter
    number [N+j+1]. *)
Theorem update_binds_pairs (conn : Conn) (table : string)
    (where_ data : Js.object) (w : World) :
  let N := List.length data in
  let sets := assignments (Js.keys data) 1 in
  let conds := assignments (Js.keys where_) (N + 1) in
  let params := (Js.values data ++ Js.values where_)%list in
  trace (snd (update drv conn table where_ data w)) =
    (trace w ++
     [ConnQuery conn
        ("update " ++ table ++ " set " ++ join ", " sets ++
         " where " ++ join " and " conds ++ " returning *")
        params])%list /\
  (forall i key v,
     nth_error data i = Some (key, v) ->
     nth_error sets i = Some (key ++ " = $" ++ string_of_nat (1 + i)) /\
     nth_error params i = Some v) /\
  (forall j key v,
     nth_error where_ j = Some (key, v) ->
     nth_error conds j = Some (key ++ " = $" ++ string_of_nat (N + 1 + j)) /\
     nth_error params (N + j) = Some v).
Proof.
  intros N sets conds params. subst N sets conds params.
  split; [|split].
  - rewrite update_run. cbn [snd trace log set_arrays].
    unfold update_statement, Js.keys. now rewrite length_map.
  - intros i key v E. split.
    + apply nth_error_assignments.
      unfold Js.keys. now rewrite nth_error_map, E.
    + rewrite nth_error_app1.
      * unfold Js.values. now rewrite nth_error_map, E.
      * unfold Js.values. rewrite length_map.
        apply nth_error_Some. rewrite E. discriminate.
  - intros j key v E. split.
    + apply nth_error_assignments.
      unfold Js.keys. now rewrite nth_error_map, E.
    + rewrite nth_error_app2 by (unfold Js.values; rewrite length_map; lia).
      unfold Js.values at 2. rewrite length_map.
      replace (List.length data + j - List.length data) with j by lia.
      unfold Js.values. now rewrite nth_error_map, E.
Qed.

End Binding.

(* ===================================================================== *)
(** ** What the statements depend on, and the edges *)
(* ===================================================================== *)

Section Texts.

Variable drv : Driver.

Lemma sent_texts_query (t : list Event) (conn : Conn) (text : string)
    (params : list Js.value) :
  sent_texts (t ++ [ConnQuery conn text params]) =
  (sent_texts t ++ [text])%list.
Proof. unfold sent_texts. now rewrite flat_map_app. Qed.

(** X13: the values never reach the text of a statement.  Two calls of
    [insert] whose row lists are as long and whose first rows have the
    same keys send the same text, and so do two calls of [update], or of
    [remove], whose mappings have the same keys, whatever the values are
    and whatever the database answers. *)
Theorem statements_ignore_values (drv' : Driver) (conn : Conn)
    (table : string) (w : World) :
  (forall data data' conflict,
     List.length data = List.length data' ->
     Js.keys (hd [] data) = Js.keys (hd [] data') ->
     sent_texts (trace (snd (insert drv conn table data conflict w))) =
     sent_texts (trace (snd (insert drv' conn table data' conflict w)))) /\
  (forall where_ where_' data data',
     Js.keys where_ = Js.keys where_' ->
     Js.keys data = Js.keys data' ->
     sent_texts (trace (snd (update drv conn table where_ data w))) =
     sent_texts (trace (snd (update drv' conn table where_' data' w)))) /\
  (forall where_ where_',
     Js.keys where_ = Js.keys where_' ->
     sent_texts (trace (snd (remove drv conn table where_ w))) =
     sent_texts (trace (snd (remove drv' conn table where_' w)))).
Proof.
  repeat split.
  - intros data data' conflict Hlen Hkeys.
    rewrite !insert_run.
    destruct data as [|first rest], data' as [|first' rest'];
      try discriminate Hlen; [reflexivity|].
    cbn [hd] in Hkeys. cbn zeta. cbn [snd trace log set_arrays].
    rewrite !sent_texts_query, Hkeys. do 4 f_equal. exact Hlen.
  - intros where_ where_' data data' Hw Hd.
    rewrite !update_run. cbn [snd trace log set_arrays].
    rewrite !sent_texts_query, Hw, Hd. reflexivity.
  - intros where_ where_' Hw.
    rewrite !remove_run. cbn [snd trace log set_arrays].
    rewrite !sent_texts_query, Hw. reflexivity.
Qed.

(** X14: a helper works on the connection it is given and on nothing
    else: it leaves the module's pool as it is, and all it adds to the
    trace is at most one call, a query on that connection; it takes no
    connection and releases none. *)
Theorem helpers_use_their_connection (conn : Conn) (table : string)
    (w : World) :
  let quiet (w' : World) :=
    pool w' = pool w /\
    exists added,
      trace w' = (trace w ++ added)%list /\
      List.length added <= 1 /\
      Forall (fun e => exists text params, e = ConnQuery conn text params)
             added in
  (forall data conflict, quiet (snd (insert drv conn table data conflict w))) /\
  (forall where_ data, quiet (snd (update drv conn table where_ data w))) /\
  (forall where_, quiet (snd (remove drv conn table where_ w))).
Proof.
  intros quiet. subst quiet. cbv beta.
  assert (one : forall text params,
             exists added,
               (trace w ++ [ConnQuery conn text params])%list =
               (trace w ++ added)%list /\
               List.length added <= 1 /\
               Forall (fun e => exists text params,
                                  e = ConnQuery conn text params) added).
  { intros text params. exists [ConnQuery conn text params].
    repeat split; [simpl; lia|].
    constructor; [eauto | constructor]. }
  split; [|split].
  - intros data conflict. rewrite insert_run.
    destruct data as [|first rest].
    + split; [reflexivity|].
      exists []. rewrite app_nil_r. repeat split; [simpl; lia | constructor].
    + split; [reflexivity | apply one].
  - intros where_ data. rewrite update_run.
    split; [reflexivity | apply one].
  - intros where_. rewrite remove_run.
    split; [reflexivity | apply one].
Qed.

Lemma flattened_no_cols (data : list Js.object) : flattened [] data = [].
Proof.
  unfold flattened. induction data as [|row data IH]; simpl; auto.
Qed.

Lemma row_tuples_no_cols (n : nat) : row_tuples n 0 = repeat "()" n.
Proof.
  unfold row_tuples. generalize 0 at 2.
  induction n as [|n IH]; intros s; simpl; [reflexivity|].
  now rewrite IH.
Qed.

(** X15: a first row without keys is not refused either: [insert] sends a
    statement with an empty column list, [()] once per row and no
    parameter at all, whatever the other rows hold. *)
Theorem insert_first_row_without_keys (conn : Conn) (table : string)
    (rest : list Js.object) (conflict : option (list string)) (w : World) :
  trace (snd (insert drv conn table ([] :: rest) conflict w)) =
  (trace w ++
   [ConnQuery conn
      (LF ++ "    INSERT INTO " ++ table ++ " ()" ++
       LF ++ "    VALUES " ++ join ", " (repeat "()" (S (List.length rest))) ++
       LF ++ "    " ++ updateClause [] conflict ++
       LF ++ "    RETURNING *;" ++
       LF ++ "  ")
      []])%list.
Proof.
  rewrite insert_cons. cbn [snd trace log set_arrays].
  change (Js.keys []) with (@nil string).
  rewrite flattened_no_cols.
  unfold insert_head, insert_tail. cbn [List.length].
  change (@List.length string []) with 0.
  rewrite (row_tuples_no_cols (S (List.length rest))).
  cbn [join]. now rewrite !append_assoc_s.
Qed.

(** X16: with an empty [data], [update] still sends its statement, with
    nothing between [set] and [where]; the keys of [where] are numbered
    from 1 and the parameters are the values of [where]. *)
Theorem update_empty_data (conn : Conn) (table : string) (where_ : Js.object)
    (w : World) :
  trace (snd (update drv conn table where_ [] w)) =
  (trace w ++
   [ConnQuery conn
      ("update " ++ table ++ " set " ++ "" ++ " where " ++
       join " and " (assignments (Js.keys where_) 1) ++ " returning *")
      (Js.values where_)])%list.
Proof.
  rewrite update_run. reflexivity.
Qed.

End Texts.

(* ===================================================================== *)
(** ** These theorems at concrete inputs *)
(* ===================================================================== *)

(** An empty script: the pool is built and nothing else happens. *)
Lemma init_pool_without_script_witness :
  init_pool (answering []) conf_blank fresh_world =
  (Ok tt,
   {| pool := Some (built_pool conf_blank);
      arrays := [];
      trace := [NewPool (options_of conf_blank)] |}).
Proof.
  apply (init_pool_without_script (answering []) conf_blank fresh_world).
  - reflexivity.
  - right. reflexivity.
Defined.

(** The script of [conf_a] on a database that accepts it. *)
Lemma init_pool_script_runs_witness :
  trace (snd (init_pool (answering []) conf_a fresh_world)) =
  [NewPool (options_of conf_a);
   ConsoleTime "[a DB] Init";
   PoolConnect;
   ConnQuery 7 "create table if not exists list (id int)" [];
   ConsoleTimeEnd "[a DB] Init";
   ConnRelease 7 true].
Proof.
  assert (Hne : "create table if not exists list (id int)" <> "")
    by discriminate.
  pose proof (init_pool_script_runs (answering []) conf_a fresh_world
                "create table if not exists list (id int)" 7 []
                eq_refl eq_refl Hne eq_refl eq_refl) as H.
  rewrite H. reflexivity.
Defined.

(** The script of [conf_a] on a database that refuses it: the connection
    is released, and [conf_b] afterwards changes nothing. *)
Lemma init_pool_script_fails_witness :
  released (trace (snd (init_pool (failing (ThrownDatabaseError syntax_error))
                          conf_a fresh_world))) = [7] /\
  init_pool (failing (ThrownDatabaseError syntax_error)) conf_b
    (snd (init_pool (failing (ThrownDatabaseError syntax_error))
            conf_a fresh_world)) =
  (Ok tt,
   snd (init_pool (failing (ThrownDatabaseError syntax_error))
          conf_a fresh_world)).
Proof.
  assert (Hne : "create table if not exists list (id int)" <> "")
    by discriminate.
  pose proof (init_pool_script_fails
                (failing (ThrownDatabaseError syntax_error)) conf_a
                fresh_world "create table if not exists list (id int)" 7
                (ThrownDatabaseError syntax_error)
                eq_refl eq_refl Hne eq_refl eq_refl) as [H Hagain].
  rewrite H. cbn [snd]. split; [reflexivity | apply Hagain].
Defined.

(** A database that cannot be reached: the driver's error comes out, no
    statement is sent, and [conf_b] afterwards changes nothing. *)
Lemma init_pool_connect_fails_witness :
  fst (init_pool (unreachable (ThrownError "connect ECONNREFUSED")) conf_a
         fresh_world) =
    Throw (Uncaught (ThrownError "connect ECONNREFUSED")) /\
  sent_texts
    (trace (snd (init_pool (unreachable (ThrownError "connect ECONNREFUSED"))
                   conf_a fresh_world))) = [] /\
  fst (init_pool (unreachable (ThrownError "connect ECONNREFUSED")) conf_b
         (snd (init_pool (unreachable (ThrownError "connect ECONNREFUSED"))
                 conf_a fresh_world))) = Ok tt.
Proof.
  assert (Hne : "create table if not exists list (id int)" <> "")
    by discriminate.
  pose proof (init_pool_connect_fails
                (unreachable (ThrownError "connect ECONNREFUSED")) conf_a
                fresh_world "create table if not exists list (id int)"
                (ThrownError "connect ECONNREFUSED")
                eq_refl eq_refl Hne eq_refl) as [H Hagain].
  rewrite H. cbn [fst snd].
  split; [reflexivity|]. split; [reflexivity|].
  now rewrite Hagain.
Defined.

(** A syntax error comes out of [query] as a [RiftError]. *)
Lemma query_throws_witness :
  exists e,
    conn_query (failing (ThrownDatabaseError syntax_error))
      (trace fresh_world) 1 "select * from tabel"
      (supplied None fresh_world) = QueryThrows e /\
    ((exists msg,
        RiftError (error_message "select * from tabel" []
                     (ThrownDatabaseError syntax_error)) = RiftError msg /\
        prefix (match e with
                | ThrownDatabaseError _ => "Database Error: "
                | _ => "Query failed: "
                end) msg = true) \/
     (RiftError (error_message "select * from tabel" []
                   (ThrownDatabaseError syntax_error)) = TypeError /\
      (exists d, e = ThrownDatabaseError d) /\
      JSON_stringify (Arr (supplied None fresh_world)) = ThrowsTypeError)).
Proof.
  apply (query_throws (failing (ThrownDatabaseError syntax_error))
           1 "select * from tabel" None fresh_world).
  reflexivity.
Defined.

(** A uniqueness violation on the insert of a BigInt: what [insert]
    throws is the [TypeError], and the parameter list is one that
    [JSON.stringify] cannot write. *)
Lemma helpers_throw_witness :
  (exists msg, TypeError = RiftError msg) \/
  (TypeError = TypeError /\
   JSON_stringify
     (Arr (flattened (Js.keys (hd [] [[("id", BigInt 10)]]))
             [[("id", BigInt 10)]])) = ThrowsTypeError).
Proof.
  apply (proj1 (helpers_throw
                  (failing (ThrownDatabaseError unique_violation)) 1 "list"
                  fresh_world TypeError) [[("id", BigInt 10)]] None).
  reflexivity.
Defined.

(** An insert that the database answers with no row. *)
Lemma insert_returns_rows_witness :
  fst (insert (answering []) 1 "list" [row1] None fresh_world) = Ok [].
Proof.
  eapply (insert_returns_rows (answering []) 1 "list" row1 [] None
            fresh_world).
  - reflexivity.
  - reflexivity.
Defined.

(** An update that the database answers with two rows. *)
Lemma update_returns_first_row_witness :
  fst (update (answering [row1; row2]) 1 "list" [("id", Num 1)]
         [("value", Str "a")] fresh_world) = Ok row1.
Proof.
  apply (update_returns_first_row (answering [row1; row2]) 1 "list"
           [("id", Num 1)] [("value", Str "a")] fresh_world row1 [row2]).
  reflexivity.
Defined.

(** An update that fails in the database does not say [no rows
    affected]. *)
Lemma update_no_rows_iff_witness :
  fst (update (failing (ThrownDatabaseError syntax_error)) 1 "list"
         [("id", Num 1)] [("value", Str "a")] fresh_world) <>
  Throw (RiftError "Update failed: no rows affected").
Proof.
  intros H.
  apply (proj1 (update_no_rows_iff
                  (failing (ThrownDatabaseError syntax_error)) 1 "list"
                  [("id", Num 1)] [("value", Str "a")] fresh_world)) in H.
  discriminate H.
Defined.

(** The fourth parameter of the two-row insert is the [value] of the
    second row. *)
Lemma insert_binds_row_values_witness :
  exists text params,
    trace (snd (insert (answering []) 1 "list" [row1; row2] None
                  fresh_world)) =
      (trace fresh_world ++ [ConnQuery 1 text params])%list /\
    nth_error params (1 * 2 + 1) = Some (Str "b").
Proof.
  apply (insert_binds_row_values (answering []) 1 "list" row1 [row2] None
           fresh_world 1 1); simpl; lia.
Defined.

(** A second row without [value], and one without [constructor]. *)
Lemma insert_missing_key_witness :
  (exists text params,
     trace (snd (insert (answering []) 1 "list" [row1; [("id", Num 2)]] None
                   fresh_world)) =
       (trace fresh_world ++ [ConnQuery 1 text params])%list /\
     List.length params = 2 * 2 /\
     nth_error params (1 * 2 + 1) = Some Undefined) /\
  (exists text params,
     trace (snd (insert (answering []) 1 "list"
                   [[("id", Num 1); ("constructor", Str "x")];
                    [("id", Num 2)]] None fresh_world)) =
       (trace fresh_world ++ [ConnQuery 1 text params])%list /\
     List.length params = 2 * 2 /\
     nth_error params (1 * 2 + 1) = Some (Inherited "constructor")).
Proof.
  split.
  - apply (insert_missing_key (answering []) 1 "list" row1
             [[("id", Num 2)]] None fresh_world 1 1).
    + simpl. lia.
    + simpl. lia.
    + simpl. intros [H | []]. discriminate H.
  - apply (insert_missing_key (answering []) 1 "list"
             [("id", Num 1); ("constructor", Str "x")]
             [[("id", Num 2)]] None fresh_world 1 1).
    + simpl. lia.
    + simpl. lia.
    + simpl. intros [H | []]. discriminate H.
Defined.

(** [{value: "z"}] where [{id: 1}]. *)
Lemma update_binds_pairs_witness :
  (nth_error (assignments ["value"] 1) 0 = Some "value = $1" /\
   nth_error [Str "z"; Num 1] 0 = Some (Str "z")) /\
  (nth_error (assignments ["id"] 2) 0 = Some "id = $2" /\
   nth_error [Str "z"; Num 1] 1 = Some (Num 1)).
Proof.
  pose proof (update_binds_pairs (answering []) 1 "list" [("id", Num 1)]
                [("value", Str "z")] fresh_world) as (_ & Hset & Hwhere).
  split.
  - exact (Hset 0 "value" (Str "z") eq_refl).
  - exact (Hwhere 0 "id" (Num 1) eq_refl).
Defined.

(** Two inserts that differ in their values only. *)
Lemma statements_ignore_values_witness :
  sent_texts (trace (snd (insert (answering []) 1 "list" [row1] None
                            fresh_world))) =
  sent_texts (trace (snd (insert (failing (ThrownError "reset")) 1 "list"
                            [row2] None fresh_world))).
Proof.
  apply (proj1 (statements_ignore_values (answering [])
                  (failing (ThrownError "reset")) 1 "list" fresh_world)
           [row1] [row2] None); reflexivity.
Defined.
